(** * bula-facil: the medication search of the results screen

    A shallow embedding of the search effect of
    [src/app/(tabs)/home/search-results.jsx] (the body of the [useEffect] of
    [SearchResultsScreen], lines 33-87) and the properties of its three
    result buckets and of the side-effect alert.

    Strings.  A JavaScript string is a sequence of UTF-16 code units.  The
    embedding covers the strings whose code units lie in U+0000..U+00FF
    (Basic Latin and Latin-1 Supplement, which holds the Portuguese
    alphabet): one [ascii] is one code unit.  On that range
    [String.prototype.toLowerCase] acts unit by unit and
    [String.prototype.trim] strips the seven white space and line terminator
    units listed in [is_white_space]. *)

From Stdlib Require Import Ascii ZArith.
From stdpp Require Import base decidable option list strings pretty.

Local Open Scope Z_scope.

(** ** JavaScript strings *)

Module Js.

(** Code units with a lowercase mapping in U+0000..U+00FF: A-Z, and
    U+00C0..U+00DE without the multiplication sign U+00D7. *)
Definition is_upper (c : ascii) : bool :=
  let n := N_of_ascii c in
  ((65 <=? n) && (n <=? 90) || (192 <=? n) && (n <=? 222) && negb (n =? 215))%N.

Definition lower_unit (c : ascii) : ascii :=
  if is_upper c then ascii_of_N (N_of_ascii c + 32) else c.

(** WhiteSpace and LineTerminator code units below U+0100:
    TAB, LF, VT, FF, CR, SP, NBSP. *)
Definition is_white_space (c : ascii) : bool :=
  match N_of_ascii c with
  | 9 | 10 | 11 | 12 | 13 | 32 | 160 => true
  | _ => false
  end%N.

(** [s.toLowerCase()] *)
Fixpoint toLowerCase (s : string) : string :=
  match s with
  | EmptyString => EmptyString
  | String c t => String (lower_unit c) (toLowerCase t)
  end.

Fixpoint trimStart (s : string) : string :=
  match s with
  | EmptyString => EmptyString
  | String c t => if is_white_space c then trimStart t else s
  end.

Definition is_empty (s : string) : bool :=
  match s with EmptyString => true | String _ _ => false end.

Fixpoint trimEnd (s : string) : string :=
  match s with
  | EmptyString => EmptyString
  | String c t =>
      let t' := trimEnd t in
      if is_white_space c && is_empty t' then EmptyString else String c t'
  end.

(** [s.trim()] *)
Definition trim (s : string) : string := trimEnd (trimStart s).

Fixpoint startsWith (s sub : string) : bool :=
  match sub, s with
  | EmptyString, _ => true
  | String _ _, EmptyString => false
  | String a sub', String b s' => bool_decide (a = b) && startsWith s' sub'
  end.

(** [s.includes(sub)]: [sub] occurs in [s] at some position. *)
Fixpoint includes (s sub : string) : bool :=
  startsWith s sub ||
  match s with
  | EmptyString => false
  | String _ t => includes t sub
  end.

(** [names.join(sep)] *)
Definition join (sep : string) (l : list string) : string := String.concat sep l.

(** Truthiness of a string value, as tested by [if (s)]. *)
Definition truthy (s : string) : bool := negb (is_empty s).

(** Only whitespace units (the empty string included). *)
Fixpoint blank (s : string) : bool :=
  match s with
  | EmptyString => true
  | String c t => is_white_space c && blank t
  end.

End Js.

(** ** Data: catalog records and the entries of the user panel *)

Record Indications := { keywords : list string }.

Record Medicamento := {
  id : Z;
  name : string;
  category : string;
  indications : Indications
}.

Record AdverseReactions := { symptoms : list string }.

Module Drug.
Record t := { name : string; adverseReactions : AdverseReactions }.
End Drug.

(** The value of the [query] route parameter: absent, one string, or an array
    of strings when the parameter is repeated. *)
Inductive QueryParam :=
| Undefined
| Str (s : string)
| Arr (l : list string).

(** Completion of a piece of JavaScript: a value, or a thrown error. *)
Inductive JsError := TypeError.

Inductive Completion (A : Type) :=
| Normal (a : A)
| Throw (e : JsError).
Arguments Normal {A} a.
Arguments Throw {A} e.

#[global] Instance Completion_ret : MRet Completion := λ A a, Normal a.

#[global] Instance Completion_bind : MBind Completion := λ A B k c,
  match c with
  | Normal a => k a
  | Throw e => Throw e
  end.

(** ** The state of the screen *)

Record Results := {
  exact : list Medicamento;
  similar : list Medicamento;
  forSymptom : list Medicamento
}.

Record ScreenState := {
  newQuery : string;
  results : Results;
  symptomAlert : option string
}.

Definition initialState : ScreenState :=
  {| newQuery := "";
     results := {| exact := []; similar := []; forSymptom := [] |};
     symptomAlert := None |}.

Definition setResults (r : Results) (st : ScreenState) : ScreenState :=
  {| newQuery := newQuery st; results := r; symptomAlert := symptomAlert st |}.

Definition setSymptomAlert (a : option string) (st : ScreenState) : ScreenState :=
  {| newQuery := newQuery st; results := results st; symptomAlert := a |}.

(** ** The search effect *)

(** [query.toLowerCase()]: the method exists on strings only. *)
Definition callToLowerCase (query : QueryParam) : Completion string :=
  match query with
  | Str s => Normal (Js.toLowerCase s)
  | Undefined | Arr _ => Throw TypeError
  end.

(** [`${query}`] *)
Definition toString (query : QueryParam) : string :=
  match query with
  | Undefined => "undefined"
  | Str s => s
  | Arr l => Js.join "," l
  end.

Definition dquote : string := String "034"%char EmptyString.

Section Search.

Variable MEDICAMENTOS : list Medicamento.
Variable userDrugs : list Drug.t.

(** Line 37. *)
Definition exactMatch (lowerCaseQuery : string) : list Medicamento :=
  filter (λ m, Js.toLowerCase (name m) = lowerCaseQuery) MEDICAMENTOS.

(** Lines 40-42. *)
Definition partialMatch (lowerCaseQuery : string) : list Medicamento :=
  filter (λ m, Js.includes (Js.toLowerCase (name m)) lowerCaseQuery
               ∧ Js.toLowerCase (name m) ≠ lowerCaseQuery) MEDICAMENTOS.

(** Lines 45-47: the keyword is compared as it is stored. *)
Definition forSymptomMatch (lowerCaseQuery : string) : list Medicamento :=
  filter (λ m, Exists (λ keyword, Js.includes keyword lowerCaseQuery)
                 (keywords (indications m))) MEDICAMENTOS.

(** Lines 50-56. *)
Definition similarMatch (lowerCaseQuery : string) : list Medicamento :=
  match exactMatch lowerCaseQuery with
  | [] => []
  | em0 :: _ =>
      filter (λ m, category m = category em0 ∧ id m ≠ id em0) MEDICAMENTOS
  end.

(** Lines 59-64. *)
Definition similarAndPartial (lowerCaseQuery : string) : list Medicamento :=
  similarMatch lowerCaseQuery ++
  filter (λ pm, ¬ Exists (λ sm, id sm = id pm) (similarMatch lowerCaseQuery)
                ∧ ¬ Exists (λ em, id em = id pm) (exactMatch lowerCaseQuery))
    (partialMatch lowerCaseQuery).

(** Lines 73-80. *)
Definition conflicting (lowerCaseQuery : string) : list Drug.t :=
  filter (λ drug, Exists (λ symptom,
                    Js.includes (Js.toLowerCase symptom) lowerCaseQuery)
                    (symptoms (Drug.adverseReactions drug))) userDrugs.

Definition conflictingDrugs (lowerCaseQuery : string) : string :=
  Js.join ", " (Drug.name <$> conflicting lowerCaseQuery).

Definition alertMessage (query : QueryParam) (names : string) : string :=
  "O sintoma " +:+ dquote +:+ toString query +:+ dquote
    +:+ " pode ser um efeito colateral de: " +:+ names +:+ ".".

(** Lines 82-86. *)
Definition alertFor (query : QueryParam) (lowerCaseQuery : string) : option string :=
  if Js.truthy (conflictingDrugs lowerCaseQuery)
  then Some (alertMessage query (conflictingDrugs lowerCaseQuery))
  else None.

(** Lines 33-87, the body of the effect. *)
Definition searchEffect (query : QueryParam) (st : ScreenState)
  : Completion ScreenState :=
  lowered ← callToLowerCase query;
  let lowerCaseQuery := Js.trim lowered in
  let st := setResults {| exact := exactMatch lowerCaseQuery;
                          similar := similarAndPartial lowerCaseQuery;
                          forSymptom := forSymptomMatch lowerCaseQuery |} st in
  mret (setSymptomAlert (alertFor query lowerCaseQuery) st).

End Search.

(** The normalized query of a string parameter (line 34). *)
Definition lowerCaseQuery (q : string) : string := Js.trim (Js.toLowerCase q).

(** Lines 90-94: a new search is started from this screen only when the
    typed text is not blank; the route parameter is then the text as typed. *)
Definition handleNewSearch (st : ScreenState) : option QueryParam :=
  if Js.truthy (Js.trim (newQuery st)) then Some (Str (newQuery st)) else None.

(** ** What the screen shows

    The view tree of lines 97-139, reduced to the parts that carry data: the
    texts, the cards of each list with their key and the route a press
    pushes, and the two places where the alert is rendered.  Styles and
    layout containers are left out. *)

(** The integers a JavaScript number holds exactly,
    [Number.isSafeInteger]: those of magnitude at most 2^53 - 1. *)
Definition isSafeInteger (n : Z) : bool :=
  bool_decide (Z.abs n ≤ 9007199254740991).

(** [n.toString()] of an id.  On a safe integer it is the decimal digits,
    with a minus sign when negative.  Other numbers (fractions, and the
    magnitudes from 10^21 on, which print in exponent form) are outside the
    embedding: [None]. *)
Definition numberToString (n : Z) : option string :=
  if isSafeInteger n then Some (pretty n) else None.

(** One entry of a [FlatList]: the key given by [keyExtractor] (line 103),
    the two texts of [ResultCard] (lines 17-18) and the route pushed by
    [onPress] (line 107).  The key and the route are [None] where
    [numberToString] is. *)
Record Card := {
  key : option string;
  cardTitle : string;
  cardCategory : string;
  onPress : option string
}.

Inductive SectionBody :=
| NoResultText (text : string)
| FlatList (cards : list Card).

Record SectionView := { sectionTitle : string; body : SectionBody }.

Definition resultCard (item : Medicamento) : Card :=
  {| key := numberToString (id item);
     cardTitle := name item;
     cardCategory := category item;
     onPress := (λ s, "home/drug-details/" +:+ s) <$> numberToString (id item) |}.

(** Lines 97-113. *)
Definition renderSection (title : string) (data : list Medicamento) : SectionView :=
  {| sectionTitle := title;
     body := if bool_decide (0 < length data)%nat
             then FlatList (resultCard <$> data)
             else NoResultText "Nenhum medicamento encontrado." |}.

(** The value of [symptomAlert && <AlertBox message={symptomAlert} />]:
    [null] and the empty string are falsy and are the value themselves. *)
Inductive Rendered :=
| Null
| BareText (s : string)
| AlertBox (message : string).

Definition renderAlert (symptomAlert : option string) : Rendered :=
  match symptomAlert with
  | None => Null
  | Some msg => if Js.truthy msg then AlertBox msg else BareText msg
  end.

Record Screen := {
  headerTitle : string;
  alertAboveSearch : Rendered;
  searchInput : string;
  alertBelowSearch : Rendered;
  sections : list SectionView
}.

(** Lines 115-139. *)
Definition render (query : QueryParam) (st : ScreenState) : Screen :=
  {| headerTitle := "Resultados para " +:+ dquote +:+ toString query +:+ dquote;
     alertAboveSearch := renderAlert (symptomAlert st);
     searchInput := newQuery st;
     alertBelowSearch := renderAlert (symptomAlert st);
     sections :=
       [ renderSection ("Medicamentos com nome " +:+ dquote +:+ toString query
                          +:+ dquote) (exact (results st));
         renderSection "Medicamentos similares" (similar (results st));
         renderSection ("Medicamentos para sintoma " +:+ dquote
                          +:+ toString query +:+ dquote)
           (forSymptom (results st)) ] |}.

(** ** Vocabulary of the specification *)

(** Case-insensitive equality and containment of two strings. *)
Definition eq_ci (a b : string) : Prop := Js.toLowerCase a = Js.toLowerCase b.

Definition contains_ci (a b : string) : Prop :=
  Js.includes (Js.toLowerCase a) (Js.toLowerCase b).

(** A user drug lists a symptom that, case-folded, contains [q]. *)
Definition listsSymptom (q : string) (drug : Drug.t) : Prop :=
  Exists (λ symptom, Js.includes (Js.toLowerCase symptom) q)
    (symptoms (Drug.adverseReactions drug)).

#[global] Instance eq_ci_dec a b : Decision (eq_ci a b).
Proof. unfold eq_ci. apply _. Defined.

#[global] Instance contains_ci_dec a b : Decision (contains_ci a b).
Proof. unfold contains_ci. apply _. Defined.

#[global] Instance listsSymptom_dec q drug : Decision (listsSymptom q drug).
Proof. unfold listsSymptom. apply _. Defined.

(** The similar bucket in the words of the specification, written over the
    catalog and the case-insensitive predicates alone, to be compared with
    what the effect computes.  [nameMatches]: the records whose name equals
    the query.  [categoryMates]: when there is such a record, the other
    catalog records sharing the category of the first one.
    [partialNameMatches]: the records whose name contains the query without
    equaling it.  [remainingPartialMatches]: the partial matches whose id is
    neither a category mate's nor a name match's. *)
Definition nameMatches (C : list Medicamento) (q : string) : list Medicamento :=
  filter (λ m, eq_ci (name m) q) C.

Definition categoryMates (C : list Medicamento) (q : string) : list Medicamento :=
  match nameMatches C q with
  | [] => []
  | first :: _ =>
      filter (λ m, category m = category first ∧ id m ≠ id first) C
  end.

Definition partialNameMatches (C : list Medicamento) (q : string) : list Medicamento :=
  filter (λ m, contains_ci (name m) q ∧ ¬ eq_ci (name m) q) C.

Definition remainingPartialMatches (C : list Medicamento) (q : string)
  : list Medicamento :=
  filter (λ m, (id m ∉ id <$> categoryMates C q)
               ∧ (id m ∉ id <$> nameMatches C q))
    (partialNameMatches C q).

(** The partial name matches that the merge appends after the category mates:
    those whose id is neither among the mates nor among the exact matches. *)
Definition remainingPartial (C : list Medicamento) (q : string) : list Medicamento :=
  filter (λ m, (¬ Exists (λ sm, id sm = id m) (similarMatch C q)
                ∧ ¬ Exists (λ em, id em = id m) (exactMatch C q))
               ∧ Js.includes (Js.toLowerCase (name m)) q
               ∧ Js.toLowerCase (name m) ≠ q) C.

(** ** Sample data *)

Definition paracetamol : Medicamento :=
  {| id := 1; name := "Paracetamol"; category := "Analgesic";
     indications := {| keywords := ["fever"; "pain"] |} |}.

Definition ibuprofen : Medicamento :=
  {| id := 2; name := "Ibuprofen"; category := "Analgesic";
     indications := {| keywords := ["pain"; "inflammation"] |} |}.

Definition catalog : list Medicamento := [paracetamol; ibuprofen].

Definition aspirin : Drug.t :=
  {| Drug.name := "Aspirin";
     Drug.adverseReactions := {| symptoms := ["nausea"; "bleeding"] |} |}.

(** Two presentations of one product, stored under names that differ in case
    only; the ids are distinct. *)
Definition dipirona_gotas : Medicamento :=
  {| id := 1; name := "Dipirona"; category := "Analgesic";
     indications := {| keywords := ["fever"] |} |}.

Definition dipirona_comprimido : Medicamento :=
  {| id := 2; name := "DIPIRONA"; category := "Analgesic";
     indications := {| keywords := ["pain"] |} |}.

(** A record whose keyword is stored capitalised. *)
Definition dorflex : Medicamento :=
  {| id := 3; name := "Dorflex"; category := "Relaxant";
     indications := {| keywords := ["Fever"] |} |}.

(** A panel entry without a name. *)
Definition unnamed : Drug.t :=
  {| Drug.name := "";
     Drug.adverseReactions := {| symptoms := ["nausea"] |} |}.

(** * Facts about the string operations *)

Section StringFacts.

Lemma lower_unit_idemp c : Js.lower_unit (Js.lower_unit c) = Js.lower_unit c.
Proof. destruct c as [[] [] [] [] [] [] [] []]; reflexivity. Qed.

Lemma is_white_space_lower c :
  Js.is_white_space (Js.lower_unit c) = Js.is_white_space c.
Proof. destruct c as [[] [] [] [] [] [] [] []]; reflexivity. Qed.

Lemma toLowerCase_idemp s : Js.toLowerCase (Js.toLowerCase s) = Js.toLowerCase s.
Proof.
  induction s as [|c s IH]; simpl; [reflexivity|].
  by rewrite lower_unit_idemp, IH.
Qed.

Lemma is_empty_toLowerCase s : Js.is_empty (Js.toLowerCase s) = Js.is_empty s.
Proof. by destruct s. Qed.

Lemma is_empty_true s : Js.is_empty s = true ↔ s = "".
Proof. destruct s; simpl; split; congruence. Qed.

Lemma toLowerCase_empty s : Js.toLowerCase s = "" ↔ s = "".
Proof. destruct s; simpl; split; congruence. Qed.

Lemma toLowerCase_trimStart s :
  Js.toLowerCase (Js.trimStart s) = Js.trimStart (Js.toLowerCase s).
Proof.
  induction s as [|c s IH]; simpl; [reflexivity|].
  rewrite is_white_space_lower. by destruct (Js.is_white_space c).
Qed.

Lemma toLowerCase_trimEnd s :
  Js.toLowerCase (Js.trimEnd s) = Js.trimEnd (Js.toLowerCase s).
Proof.
  induction s as [|c s IH]; simpl; [reflexivity|].
  rewrite <- IH, is_white_space_lower, is_empty_toLowerCase.
  by destruct (Js.is_white_space c && Js.is_empty (Js.trimEnd s)).
Qed.

Lemma toLowerCase_trim s : Js.toLowerCase (Js.trim s) = Js.trim (Js.toLowerCase s).
Proof. unfold Js.trim. by rewrite toLowerCase_trimEnd, toLowerCase_trimStart. Qed.

Lemma trimStart_idemp s : Js.trimStart (Js.trimStart s) = Js.trimStart s.
Proof.
  induction s as [|c s IH]; simpl; [reflexivity|].
  destruct (Js.is_white_space c) eqn:Hc; [done|]. simpl. by rewrite Hc.
Qed.

Lemma trimEnd_idemp s : Js.trimEnd (Js.trimEnd s) = Js.trimEnd s.
Proof.
  induction s as [|c s IH]; simpl; [reflexivity|].
  destruct (Js.is_white_space c && Js.is_empty (Js.trimEnd s)) eqn:Hc;
    [done|]. simpl. by rewrite IH, Hc.
Qed.

Lemma trimStart_trimEnd s :
  Js.trimStart (Js.trimEnd s) = Js.trimEnd (Js.trimStart s).
Proof.
  induction s as [|c s IH]; simpl; [reflexivity|].
  destruct (Js.is_white_space c) eqn:Hc; simpl.
  - destruct (Js.is_empty (Js.trimEnd s)) eqn:He; simpl.
    + apply is_empty_true in He. by rewrite <- IH, He.
    + by rewrite Hc.
  - by rewrite Hc.
Qed.

Lemma trim_idemp s : Js.trim (Js.trim s) = Js.trim s.
Proof.
  unfold Js.trim.
  by rewrite trimStart_trimEnd, trimStart_idemp, trimEnd_idemp.
Qed.

Lemma trimStart_blank s : Js.blank s = true → Js.trimStart s = "".
Proof.
  induction s as [|c s IH]; simpl; [done|].
  destruct (Js.is_white_space c); simpl; [done|discriminate].
Qed.

Lemma blank_toLowerCase s : Js.blank (Js.toLowerCase s) = Js.blank s.
Proof.
  induction s as [|c s IH]; simpl; [done|].
  by rewrite is_white_space_lower, IH.
Qed.

Lemma trim_blank s : Js.blank s = true → Js.trim s = "".
Proof. intros Hs. unfold Js.trim. by rewrite trimStart_blank. Qed.

Lemma includes_empty s : Js.includes s "" = true.
Proof. by destruct s. Qed.

End StringFacts.

Lemma lowerCaseQuery_lower q :
  Js.toLowerCase (lowerCaseQuery q) = lowerCaseQuery q.
Proof.
  unfold lowerCaseQuery. by rewrite toLowerCase_trim, toLowerCase_idemp.
Qed.

Lemma lowerCaseQuery_idemp q : lowerCaseQuery (lowerCaseQuery q) = lowerCaseQuery q.
Proof.
  unfold lowerCaseQuery at 1. rewrite lowerCaseQuery_lower.
  unfold lowerCaseQuery. apply trim_idemp.
Qed.

Lemma lowerCaseQuery_trim_first q : lowerCaseQuery q = Js.toLowerCase (Js.trim q).
Proof. unfold lowerCaseQuery. by rewrite toLowerCase_trim. Qed.

Lemma lowerCaseQuery_blank q : Js.blank q = true → lowerCaseQuery q = "".
Proof.
  intros Hq. unfold lowerCaseQuery. apply trim_blank.
  by rewrite blank_toLowerCase.
Qed.

(** * The effect on a string query *)

Lemma searchEffect_Str C D q st :
  searchEffect C D (Str q) st =
  Normal {| newQuery := newQuery st;
            results := {| exact := exactMatch C (lowerCaseQuery q);
                          similar := similarAndPartial C (lowerCaseQuery q);
                          forSymptom := forSymptomMatch C (lowerCaseQuery q) |};
            symptomAlert := alertFor D (Str q) (lowerCaseQuery q) |}.
Proof. reflexivity. Qed.

Lemma filter_all_elem {A} (P : A → Prop) `{!∀ x, Decision (P x)} (l : list A) :
  (∀ x, x ∈ l → P x) → filter P l = l.
Proof.
  induction l as [|x l IH]; intros HP; [done|].
  rewrite filter_cons_True by (apply HP, list_elem_of_here).
  f_equal. apply IH. intros y Hy. by apply HP, list_elem_of_further.
Qed.

Lemma filter_all {A} (P : A → Prop) `{!∀ x, Decision (P x)} (l : list A) :
  (∀ x, P x) → filter P l = l.
Proof. intros HP. apply filter_all_elem. auto. Qed.

Lemma similarMatch_sublist C q : similarMatch C q `sublist_of` C.
Proof.
  unfold similarMatch. destruct (exactMatch C q).
  - apply sublist_nil_l.
  - apply sublist_filter.
Qed.

Lemma similarAndPartial_split C q :
  similarAndPartial C q = similarMatch C q ++ remainingPartial C q.
Proof.
  unfold similarAndPartial, remainingPartial, partialMatch.
  by rewrite list_filter_filter.
Qed.

(** * The result buckets *)

(** C4.  For every catalog and every string query, the search completes and
    its [exact] bucket holds a record if and only if the record is in the
    catalog and its name equals the normalized query up to case. *)
Theorem exact_iff_name_equals_query C D q st :
  ∃ st', searchEffect C D (Str q) st = Normal st' ∧
    ∀ m, m ∈ exact (results st') ↔
         m ∈ C ∧ eq_ci (name m) (lowerCaseQuery q).
Proof.
  eexists. split; [apply searchEffect_Str|]. simpl. intros m.
  unfold exactMatch, eq_ci.
  rewrite list_elem_of_filter, lowerCaseQuery_lower. tauto.
Qed.

(** C5.  When no catalog name equals the normalized query, the [similar]
    bucket of the completed search is the partial-match list: the catalog
    records whose name contains the normalized query without equaling it,
    and nothing chosen by category. *)
Theorem similar_is_partial_when_no_exact C D q st :
  exactMatch C (lowerCaseQuery q) = [] →
  ∃ st', searchEffect C D (Str q) st = Normal st' ∧
    exact (results st') = [] ∧
    similar (results st') = partialMatch C (lowerCaseQuery q) ∧
    ∀ m, m ∈ similar (results st') ↔
         m ∈ C ∧ contains_ci (name m) (lowerCaseQuery q)
               ∧ ¬ eq_ci (name m) (lowerCaseQuery q).
Proof.
  intros Hex. eexists. split; [apply searchEffect_Str|]. simpl.
  assert (Hsim : similarAndPartial C (lowerCaseQuery q)
                 = partialMatch C (lowerCaseQuery q)).
  { unfold similarAndPartial, similarMatch. rewrite Hex. simpl.
    apply filter_all. intros m. split; by intros ?%Exists_nil. }
  split; [done|]. split; [done|]. intros m. rewrite Hsim.
  unfold partialMatch, contains_ci, eq_ci.
  rewrite list_elem_of_filter, lowerCaseQuery_lower. tauto.
Qed.

Lemma similar_is_partial_when_no_exact_witness :
  ∃ st', searchEffect catalog [aspirin] (Str " Para") initialState = Normal st' ∧
    exact (results st') = [] ∧
    similar (results st') = partialMatch catalog (lowerCaseQuery " Para") ∧
    ∀ m, m ∈ similar (results st') ↔
         m ∈ catalog ∧ contains_ci (name m) (lowerCaseQuery " Para")
                     ∧ ¬ eq_ci (name m) (lowerCaseQuery " Para").
Proof.
  apply (similar_is_partial_when_no_exact catalog [aspirin] " Para" initialState).
  vm_compute. reflexivity.
Defined.

Lemma nameMatches_exactMatch C q :
  nameMatches C (lowerCaseQuery q) = exactMatch C (lowerCaseQuery q).
Proof.
  apply list_filter_iff. intros m. unfold eq_ci.
  by rewrite lowerCaseQuery_lower.
Qed.

Lemma categoryMates_similarMatch C q :
  categoryMates C (lowerCaseQuery q) = similarMatch C (lowerCaseQuery q).
Proof. unfold categoryMates, similarMatch. by rewrite nameMatches_exactMatch. Qed.

Lemma partialNameMatches_partialMatch C q :
  partialNameMatches C (lowerCaseQuery q) = partialMatch C (lowerCaseQuery q).
Proof.
  apply list_filter_iff. intros m. unfold contains_ci, eq_ci.
  by rewrite lowerCaseQuery_lower.
Qed.

Lemma elem_of_ids (l : list Medicamento) m :
  id m ∈ id <$> l ↔ Exists (λ x, id x = id m) l.
Proof.
  rewrite list_elem_of_fmap, Exists_exists. split.
  - intros (x & Heq & Hx). by exists x.
  - intros (x & Hx & Heq). by exists x.
Qed.

Lemma similarAndPartial_in_spec_words C q :
  similarAndPartial C (lowerCaseQuery q)
  = categoryMates C (lowerCaseQuery q)
    ++ remainingPartialMatches C (lowerCaseQuery q).
Proof.
  unfold similarAndPartial, remainingPartialMatches.
  rewrite categoryMates_similarMatch, nameMatches_exactMatch,
    partialNameMatches_partialMatch.
  f_equal. apply list_filter_iff. intros m. by rewrite !elem_of_ids.
Qed.

Lemma spec_words_on_the_sample_catalog :
  nameMatches catalog "paracetamol" = [paracetamol] ∧
  categoryMates catalog "paracetamol" = [ibuprofen] ∧
  remainingPartialMatches catalog "paracetamol" = [] ∧
  categoryMates catalog "para" = [] ∧
  remainingPartialMatches catalog "para" = [paracetamol].
Proof. vm_compute. done. Qed.

Lemma categoryMates_sublist C q : categoryMates C q `sublist_of` C.
Proof.
  unfold categoryMates. destruct (nameMatches C q).
  - apply sublist_nil_l.
  - apply sublist_filter.
Qed.

Lemma remainingPartialMatches_sublist C q :
  remainingPartialMatches C q `sublist_of` C.
Proof.
  unfold remainingPartialMatches, partialNameMatches.
  etransitivity; apply sublist_filter.
Qed.

(** C8.  The [exact] and [forSymptom] buckets are subsequences of the
    catalog, and the [similar] bucket is the category mates of the first
    exact match, in catalog order, followed by the partial name matches not
    yet listed, in catalog order: the list the specification describes,
    [categoryMates] followed by [remainingPartialMatches]. *)
Theorem buckets_follow_catalog_order C D q st :
  ∃ st', searchEffect C D (Str q) st = Normal st' ∧
    exact (results st') `sublist_of` C ∧
    forSymptom (results st') `sublist_of` C ∧
    similar (results st') =
      categoryMates C (lowerCaseQuery q)
      ++ remainingPartialMatches C (lowerCaseQuery q) ∧
    categoryMates C (lowerCaseQuery q) `sublist_of` C ∧
    remainingPartialMatches C (lowerCaseQuery q) `sublist_of` C.
Proof.
  eexists. split; [apply searchEffect_Str|]. simpl.
  repeat split.
  - apply sublist_filter.
  - apply sublist_filter.
  - apply similarAndPartial_in_spec_words.
  - apply categoryMates_sublist.
  - apply remainingPartialMatches_sublist.
Qed.

(** C10.  When the [exact] bucket is not empty and [e] is its first record,
    every record of the [similar] bucket is a catalog record that shares the
    category of [e] under another id, or whose name contains the normalized
    query, up to case, without equaling it. *)
Theorem similar_members_sound C D q st e es :
  exactMatch C (lowerCaseQuery q) = e :: es →
  ∃ st', searchEffect C D (Str q) st = Normal st' ∧
    exact (results st') = e :: es ∧
    ∀ m, m ∈ similar (results st') →
         m ∈ C ∧ ((category m = category e ∧ id m ≠ id e)
                  ∨ (contains_ci (name m) (lowerCaseQuery q)
                     ∧ ¬ eq_ci (name m) (lowerCaseQuery q))).
Proof.
  intros Hex. eexists. split; [apply searchEffect_Str|]. simpl.
  split; [done|]. intros m.
  unfold similarAndPartial, similarMatch, partialMatch, contains_ci, eq_ci.
  rewrite Hex, lowerCaseQuery_lower.
  rewrite elem_of_app, !list_elem_of_filter. tauto.
Qed.

Lemma similar_members_sound_witness :
  ∃ st', searchEffect catalog [aspirin] (Str "Paracetamol") initialState = Normal st' ∧
    exact (results st') = [paracetamol] ∧
    ∀ m, m ∈ similar (results st') →
         m ∈ catalog ∧ ((category m = category paracetamol ∧ id m ≠ id paracetamol)
                  ∨ (contains_ci (name m) (lowerCaseQuery "Paracetamol")
                     ∧ ¬ eq_ci (name m) (lowerCaseQuery "Paracetamol"))).
Proof.
  apply (similar_members_sound catalog [aspirin] "Paracetamol" initialState
           paracetamol []).
  vm_compute. reflexivity.
Defined.

(** C9.  Searching with a query and searching with its normalization (the
    query trimmed and case-folded) both complete, with the same three
    buckets and the same presence of the alert. *)
Theorem normalized_query_same_results C D q st :
  ∃ st1 st2,
    searchEffect C D (Str q) st = Normal st1 ∧
    searchEffect C D (Str (Js.toLowerCase (Js.trim q))) st = Normal st2 ∧
    results st1 = results st2 ∧
    (is_Some (symptomAlert st1) ↔ is_Some (symptomAlert st2)) ∧
    Js.toLowerCase (Js.trim q) = lowerCaseQuery q.
Proof.
  do 2 eexists. rewrite !searchEffect_Str.
  rewrite <- lowerCaseQuery_trim_first, lowerCaseQuery_idemp.
  split; [done|]. split; [done|]. simpl. split; [done|]. split; [|done].
  unfold alertFor.
  destruct (Js.truthy _); split; intros [? ?]; (done || by eexists).
Qed.

(** * The conflict alert *)

Lemma truthy_join names :
  Js.truthy (Js.join ", " names) = true ↔ names ≠ [] ∧ names ≠ [""].
Proof.
  destruct names as [|[|c x] [|y names]]; simpl;
    (split; [try discriminate; by intros _ | by (intros [? ?] || intros _)]).
Qed.

Lemma alertFor_is_Some D query q :
  is_Some (alertFor D query q) ↔ Js.truthy (conflictingDrugs D q) = true.
Proof.
  unfold alertFor. by destruct (Js.truthy _); split; try intros [? ?].
Qed.

Lemma conflicting_iff D q drug :
  drug ∈ conflicting D q ↔ drug ∈ D ∧ listsSymptom q drug.
Proof. unfold conflicting, listsSymptom. rewrite list_elem_of_filter. tauto. Qed.

(** The alert in general.  The search completes; the matching drugs are the
    panel entries listing a symptom that, case-folded, contains the
    normalized query, kept in panel order; an alert is produced if and only
    if their names joined by ", " form a non-empty string, that is, at least
    one drug matches and the matches are not a single drug with the empty
    name; the message of the alert ends with exactly those joined names. *)
Lemma alert_iff_joined_names_nonempty C D q st :
  ∃ st', searchEffect C D (Str q) st = Normal st' ∧
    conflicting D (lowerCaseQuery q) `sublist_of` D ∧
    (∀ drug, drug ∈ conflicting D (lowerCaseQuery q) ↔
             drug ∈ D ∧ listsSymptom (lowerCaseQuery q) drug) ∧
    (is_Some (symptomAlert st') ↔
       conflicting D (lowerCaseQuery q) ≠ [] ∧
       Drug.name <$> conflicting D (lowerCaseQuery q) ≠ [""]) ∧
    (∀ msg, symptomAlert st' = Some msg →
       msg = "O sintoma " +:+ dquote +:+ q +:+ dquote
               +:+ " pode ser um efeito colateral de: "
               +:+ Js.join ", " (Drug.name <$> conflicting D (lowerCaseQuery q))
               +:+ ".").
Proof.
  eexists. split; [apply searchEffect_Str|]. simpl.
  split; [apply sublist_filter|]. split; [apply conflicting_iff|]. split.
  - rewrite alertFor_is_Some. unfold conflictingDrugs. rewrite truthy_join.
    split; intros [H1 H2]; (split; [|done]).
    + intros Hnil. by rewrite Hnil in H1.
    + intros Hnil%fmap_nil_inv. done.
  - intros msg. unfold alertFor.
    destruct (Js.truthy _); [|discriminate]. by intros [= <-].
Qed.

(** C2, the code at the failing input.  The only panel entry listing
    "nausea" has the empty name: a drug matches the query, the joined names
    are the empty string, which line 82 takes for "no drug", and no alert is
    produced. *)
Theorem no_alert_for_unnamed_drug :
  ∃ st', searchEffect catalog [unnamed] (Str "nausea") initialState = Normal st' ∧
    (∃ drug, drug ∈ [unnamed] ∧ listsSymptom (lowerCaseQuery "nausea") drug) ∧
    conflicting [unnamed] (lowerCaseQuery "nausea") = [unnamed] ∧
    symptomAlert st' = None.
Proof.
  eexists. split; [apply searchEffect_Str|]. split; [|split; reflexivity].
  exists unnamed. split; [apply list_elem_of_here|].
  apply Exists_cons_hd. vm_compute. exact I.
Qed.

(** * Queries that are missing, not strings, or blank *)

(** C7, counterexample.  With the route parameter absent the effect throws. *)
Lemma missing_query_throws :
  searchEffect catalog [aspirin] Undefined initialState = Throw TypeError ∧
  ¬ ∃ st', searchEffect catalog [aspirin] Undefined initialState = Normal st'.
Proof. split; [reflexivity|]. intros [st' Hst']. discriminate Hst'. Qed.

Lemma conflicting_listsSymptom D q :
  filter (listsSymptom q) D = conflicting D q.
Proof. by apply list_filter_iff. Qed.

(** C7, amended.  For every string query, every catalog and every panel the
    effect completes and sets the state: the text of the search box is kept,
    [exact] is the catalog records named like the normalized query up to
    case, [similar] is the category mates followed by the remaining partial
    matches, [forSymptom] is the catalog records with a stored keyword
    containing the normalized query, and the alert is the message over the
    joined names of the panel drugs listing the symptom, or none when that
    string is empty.  For an absent query and for an array of strings it
    throws a TypeError when it normalizes the query, and sets no result. *)
Theorem completes_on_strings_only C D query st :
  match query with
  | Str q =>
      ∃ st', searchEffect C D query st = Normal st' ∧
        newQuery st' = newQuery st ∧
        exact (results st') = nameMatches C (lowerCaseQuery q) ∧
        similar (results st') =
          categoryMates C (lowerCaseQuery q)
          ++ remainingPartialMatches C (lowerCaseQuery q) ∧
        forSymptom (results st') =
          filter (λ m, Exists (λ keyword, Js.includes keyword (lowerCaseQuery q))
                         (keywords (indications m))) C ∧
        symptomAlert st' =
          (if Js.truthy (Js.join ", "
                (Drug.name <$> filter (listsSymptom (lowerCaseQuery q)) D))
           then Some ("O sintoma " +:+ dquote +:+ q +:+ dquote
                        +:+ " pode ser um efeito colateral de: "
                        +:+ Js.join ", "
                              (Drug.name <$>
                                 filter (listsSymptom (lowerCaseQuery q)) D)
                        +:+ ".")
           else None)
  | Undefined | Arr _ => searchEffect C D query st = Throw TypeError
  end.
Proof.
  destruct query as [|q|l]; [done| |done].
  eexists. split; [apply searchEffect_Str|]. simpl.
  split; [done|]. split; [by rewrite nameMatches_exactMatch|].
  split; [apply similarAndPartial_in_spec_words|]. split; [done|].
  by rewrite conflicting_listsSymptom.
Qed.

Lemma Exists_always {A} (P : A → Prop) (l : list A) :
  (∀ x, P x) → Exists P l ↔ l ≠ [].
Proof.
  intros HP. destruct l as [|x l]; split; try done.
  - by intros ?%Exists_nil.
  - intros _. by apply Exists_cons_hd.
Qed.

Lemma exactMatch_blank C : exactMatch C "" = filter (λ m, name m = "") C.
Proof. apply list_filter_iff. intros m. apply toLowerCase_empty. Qed.

Lemma partialMatch_blank C : partialMatch C "" = filter (λ m, name m ≠ "") C.
Proof.
  apply list_filter_iff. intros m.
  rewrite includes_empty, toLowerCase_empty. simpl. tauto.
Qed.

Lemma forSymptomMatch_blank C :
  forSymptomMatch C "" = filter (λ m, keywords (indications m) ≠ []) C.
Proof.
  apply list_filter_iff. intros m. apply Exists_always.
  intros keyword. by rewrite includes_empty.
Qed.

Lemma conflicting_blank D :
  conflicting D "" = filter (λ drug, symptoms (Drug.adverseReactions drug) ≠ []) D.
Proof.
  apply list_filter_iff. intros drug. apply Exists_always.
  intros symptom. by rewrite includes_empty.
Qed.

Lemma trimStart_empty_blank s : Js.trimStart s = "" → Js.blank s = true.
Proof.
  induction s as [|c s IH]; simpl; [done|].
  destruct (Js.is_white_space c); simpl; [done|discriminate].
Qed.

Lemma trimEnd_empty s : Js.trimEnd s = "" → Js.blank s = true.
Proof.
  induction s as [|c s IH]; simpl; [done|].
  destruct (Js.is_white_space c); simpl; [|discriminate].
  destruct (Js.trimEnd s); simpl; [auto|discriminate].
Qed.

Lemma blank_trimStart s : Js.blank (Js.trimStart s) = Js.blank s.
Proof.
  induction s as [|c s IH]; simpl; [done|].
  destruct (Js.is_white_space c) eqn:Hc; simpl; [done|]. by rewrite Hc.
Qed.

(** The screen's own search box never submits a blank query. *)
Lemma handleNewSearch_blank st :
  handleNewSearch st = None ↔ Js.blank (newQuery st) = true.
Proof.
  unfold handleNewSearch, Js.truthy. split.
  - destruct (Js.is_empty _) eqn:He; simpl; [intros _|discriminate].
    apply is_empty_true, trimEnd_empty in He. by rewrite blank_trimStart in He.
  - intros Hb. by rewrite (trim_blank _ Hb).
Qed.

(** C6, counterexample.  The empty query over the sample catalog fills
    [similar] and [forSymptom] and raises the alert. *)
Lemma empty_query_matches :
  ∃ st', searchEffect catalog [aspirin] (Str "") initialState = Normal st' ∧
    similar (results st') = catalog ∧
    forSymptom (results st') = catalog ∧
    is_Some (symptomAlert st').
Proof.
  eexists. split; [apply searchEffect_Str|]. vm_compute.
  split; [done|]. split; [done|]. by eexists.
Qed.

(** C6, amended.  An empty or whitespace-only query is no fault: it is
    normalized to the empty string, which every string contains.  [exact]
    holds the records with the empty name, [forSymptom] the records with at
    least one keyword, [similar] the whole catalog when no name is empty,
    and the alert is produced whenever the joined names of the panel drugs
    that list a symptom are non-empty.  An absent query throws. *)
Theorem blank_query_matches_everything C D q st :
  Js.blank q = true →
  lowerCaseQuery q = "" ∧
  (∃ st', searchEffect C D (Str q) st = Normal st' ∧
    exact (results st') = filter (λ m, name m = "") C ∧
    forSymptom (results st') = filter (λ m, keywords (indications m) ≠ []) C ∧
    (exact (results st') = [] → similar (results st') = C) ∧
    (is_Some (symptomAlert st') ↔
       Js.truthy (Js.join ", " (Drug.name <$>
         filter (λ drug, symptoms (Drug.adverseReactions drug) ≠ []) D)) = true)) ∧
  searchEffect C D Undefined st = Throw TypeError.
Proof.
  intros Hq%lowerCaseQuery_blank. split; [done|]. split; [|done].
  eexists. split; [apply searchEffect_Str|]. rewrite Hq. simpl.
  split; [apply exactMatch_blank|]. split; [apply forSymptomMatch_blank|]. split.
  - intros Hex. unfold similarAndPartial, similarMatch. rewrite Hex. simpl.
    rewrite filter_all by (intros m; split; by intros ?%Exists_nil).
    rewrite partialMatch_blank. rewrite exactMatch_blank in Hex.
    apply filter_all_elem. intros m Hm Hname.
    eapply (filter_nil_not_elem_of _ _ m); [exact Hex|exact Hname|exact Hm].
  - rewrite alertFor_is_Some. unfold conflictingDrugs.
    by rewrite conflicting_blank.
Qed.

Lemma blank_query_matches_everything_witness :
  lowerCaseQuery "  " = "" ∧
  (∃ st', searchEffect catalog [aspirin] (Str "  ") initialState = Normal st' ∧
    exact (results st') = filter (λ m, name m = "") catalog ∧
    forSymptom (results st') =
      filter (λ m, keywords (indications m) ≠ []) catalog ∧
    (exact (results st') = [] → similar (results st') = catalog) ∧
    (is_Some (symptomAlert st') ↔
       Js.truthy (Js.join ", " (Drug.name <$>
         filter (λ drug, symptoms (Drug.adverseReactions drug) ≠ [])
           [aspirin])) = true)) ∧
  searchEffect catalog [aspirin] Undefined initialState = Throw TypeError.
Proof.
  apply (blank_query_matches_everything catalog [aspirin] "  " initialState).
  reflexivity.
Defined.

(** * The symptom bucket and stored keywords *)

(** What [forSymptom] holds: the records one of whose keywords, as stored,
    contains the normalized query. *)
Lemma forSymptomMatch_iff C q m :
  m ∈ forSymptomMatch C q ↔
  m ∈ C ∧ ∃ keyword, keyword ∈ keywords (indications m) ∧ Js.includes keyword q.
Proof.
  unfold forSymptomMatch. rewrite list_elem_of_filter, Exists_exists. tauto.
Qed.

(** On a catalog whose keywords are stored in lower case the bucket is the
    case-insensitive one. *)
Lemma forSymptomMatch_lowercase_catalog C q m :
  (∀ m' keyword, m' ∈ C → keyword ∈ keywords (indications m') →
                 Js.toLowerCase keyword = keyword) →
  m ∈ forSymptomMatch C (lowerCaseQuery q) ↔
  m ∈ C ∧ ∃ keyword, keyword ∈ keywords (indications m)
                     ∧ contains_ci keyword (lowerCaseQuery q).
Proof.
  intros Hlow. rewrite forSymptomMatch_iff. unfold contains_ci.
  rewrite lowerCaseQuery_lower. split.
  - intros [Hm (keyword & Hk & Hin)]. split; [done|]. exists keyword.
    by rewrite (Hlow m keyword Hm Hk).
  - intros [Hm (keyword & Hk & Hin)]. split; [done|]. exists keyword.
    by rewrite (Hlow m keyword Hm Hk) in Hin.
Qed.

(** C3, the code at the failing input.  The keyword "Fever" contains the
    query "fever" up to case, and the record is not in [forSymptom]: line 46
    lowers the query and compares it with the keyword as stored. *)
Theorem forSymptom_misses_capitalised_keyword :
  ∃ st', searchEffect [dorflex] [] (Str "fever") initialState = Normal st' ∧
    (∃ keyword, keyword ∈ keywords (indications dorflex)
                ∧ contains_ci keyword (lowerCaseQuery "fever")) ∧
    forSymptom (results st') = [].
Proof.
  eexists. split; [apply searchEffect_Str|]. split; [|reflexivity].
  exists "Fever". split; [apply list_elem_of_here|]. vm_compute. exact I.
Qed.

(** * The similar bucket against the exact bucket *)

(** A catalog with distinct ids gives a [similar] bucket with distinct ids. *)
Lemma similarAndPartial_NoDup C q :
  NoDup (id <$> C) → NoDup (id <$> similarAndPartial C q).
Proof.
  intros HC. rewrite similarAndPartial_split, fmap_app. apply NoDup_app.
  split; [|split].
  - eapply sublist_NoDup; [exact HC|]. apply fmap_sublist, similarMatch_sublist.
  - intros i Hsm Hm.
    apply list_elem_of_fmap in Hsm as (sm & -> & Hsm).
    apply list_elem_of_fmap in Hm as (m & Heq & Hm).
    apply list_elem_of_filter in Hm as [[[Hnot _] _] _]. apply Hnot.
    apply Exists_exists. by exists sm.
  - eapply sublist_NoDup; [exact HC|]. apply fmap_sublist, sublist_filter.
Qed.

(** With a single exact match, no id of [similar] is the id of an exact
    match. *)
Lemma similar_exact_disjoint_single C q e m :
  exactMatch C q = [e] → m ∈ similarAndPartial C q →
  ∀ em, em ∈ exactMatch C q → id m ≠ id em.
Proof.
  intros Hex Hm em Hem. rewrite Hex in Hem. apply list_elem_of_singleton in Hem as ->.
  unfold similarAndPartial, similarMatch in Hm. rewrite Hex in Hm.
  apply elem_of_app in Hm as [Hm|Hm]; apply list_elem_of_filter in Hm.
  - tauto.
  - destruct Hm as [[_ Hnot] _]. intros Heq. apply Hnot.
    apply Exists_cons_hd. done.
Qed.

(** C1, the code at the failing input.  The catalog has distinct ids and two
    records named "Dipirona" up to case in one category.  Both are exact
    matches, and the second is also in [similar]: line 54 removes from the
    category mates the id of the first exact match only. *)
Theorem similar_keeps_second_exact_match :
  ∃ st', searchEffect [dipirona_gotas; dipirona_comprimido] [] (Str "dipirona")
           initialState = Normal st' ∧
    NoDup (id <$> [dipirona_gotas; dipirona_comprimido]) ∧
    exact (results st') = [dipirona_gotas; dipirona_comprimido] ∧
    similar (results st') = [dipirona_comprimido] ∧
    dipirona_comprimido ∈ exact (results st') ∧
    dipirona_comprimido ∈ similar (results st').
Proof.
  eexists. split; [apply searchEffect_Str|]. vm_compute.
  split; [|split; [done|split; [done|split]]].
  - apply NoDup_cons. split; [|apply NoDup_singleton].
    intros Hin%list_elem_of_singleton. discriminate Hin.
  - apply list_elem_of_further, list_elem_of_here.
  - apply list_elem_of_here.
Qed.


(** * Containment as a decomposition *)

Lemma app_string_nil_r s : s +:+ "" = s.
Proof. induction s as [|c s IH]; [done|]. change (String c (s +:+ "") = String c s). by rewrite IH. Qed.

Lemma app_string_assoc a b c : (a +:+ b) +:+ c = a +:+ (b +:+ c).
Proof.
  induction a as [|x a IH]; [done|].
  change (String x ((a +:+ b) +:+ c) = String x (a +:+ (b +:+ c))).
  by rewrite IH.
Qed.

Lemma toLowerCase_app a b :
  Js.toLowerCase (a +:+ b) = Js.toLowerCase a +:+ Js.toLowerCase b.
Proof.
  induction a as [|x a IH]; [done|].
  change (String (Js.lower_unit x) (Js.toLowerCase (a +:+ b))
          = String (Js.lower_unit x) (Js.toLowerCase a +:+ Js.toLowerCase b)).
  by rewrite IH.
Qed.

Lemma startsWith_iff s sub :
  Js.startsWith s sub = true ↔ ∃ post, s = sub +:+ post.
Proof.
  revert s. induction sub as [|a sub IH]; intros s.
  - split; [intros _; by exists s|by destruct s].
  - destruct s as [|b s].
    + split; [done|]. intros [post Hpost]. discriminate Hpost.
    + change (Js.startsWith (String b s) (String a sub))
        with (bool_decide (a = b) && Js.startsWith s sub).
      rewrite andb_true_iff, bool_decide_eq_true, IH. split.
      * intros [-> [post ->]]. by exists post.
      * intros [post Hpost]. injection Hpost as -> ->.
        split; [done|by exists post].
Qed.

Lemma includes_nil sub : Js.includes "" sub = Js.startsWith "" sub.
Proof. unfold Js.includes. apply orb_false_r. Qed.

Lemma includes_cons c s sub :
  Js.includes (String c s) sub
  = Js.startsWith (String c s) sub || Js.includes s sub.
Proof. reflexivity. Qed.

(** [s.includes(sub)] holds exactly when [s] is [sub] with something before
    and something after. *)
Lemma includes_iff s sub :
  Js.includes s sub = true ↔ ∃ pre post, s = pre +:+ sub +:+ post.
Proof.
  induction s as [|c s IH].
  - rewrite includes_nil, startsWith_iff. split.
    + intros [post Hpost]. by exists "", post.
    + intros (pre & post & Hs). destruct pre; simpl in Hs; [by exists post|done].
  - rewrite includes_cons, orb_true_iff, startsWith_iff, IH. split.
    + intros [[post Hpost]|(pre & post & Hs)].
      * by exists "", post.
      * exists (String c pre), post. simpl. by rewrite Hs.
    + intros (pre & post & Hs). destruct pre as [|c' pre]; simpl in Hs.
      * left. by exists post.
      * right. injection Hs as -> ->. by exists pre, post.
Qed.

Lemma includes_refl s : Js.includes s s = true.
Proof. apply includes_iff. exists "", "". simpl. by rewrite app_string_nil_r. Qed.

Lemma includes_trans s b a :
  Js.includes s b = true → Js.includes b a = true → Js.includes s a = true.
Proof.
  rewrite !includes_iff. intros (p1 & q1 & ->) (p2 & q2 & ->).
  exists (p1 +:+ p2), (q2 +:+ q1). by rewrite !app_string_assoc.
Qed.

Lemma includes_toLowerCase s sub :
  Js.includes s sub = true →
  Js.includes (Js.toLowerCase s) (Js.toLowerCase sub) = true.
Proof.
  rewrite !includes_iff. intros (pre & post & ->).
  exists (Js.toLowerCase pre), (Js.toLowerCase post).
  by rewrite !toLowerCase_app.
Qed.

(** * A search started from the screen *)

(** The search box hands the typed text over untrimmed, and only when its
    trimmed form is not empty; the effect then completes on that parameter
    with a non-empty normalized query, and no exact match has an empty
    name. *)
Theorem new_search_never_degenerate C D st st0 query :
  handleNewSearch st = Some query →
  query = Str (newQuery st) ∧
  lowerCaseQuery (newQuery st) ≠ "" ∧
  ∃ st', searchEffect C D query st0 = Normal st' ∧
    ∀ m, m ∈ exact (results st') → name m ≠ "".
Proof.
  unfold handleNewSearch, Js.truthy.
  destruct (Js.is_empty (Js.trim (newQuery st))) eqn:He; simpl; [done|].
  intros [= <-]. split; [done|].
  assert (Hq : lowerCaseQuery (newQuery st) ≠ "").
  { rewrite lowerCaseQuery_trim_first, toLowerCase_empty.
    intros Hnil. by rewrite Hnil in He. }
  split; [done|]. eexists. split; [apply searchEffect_Str|]. simpl.
  intros m [Hm _]%list_elem_of_filter Hname. apply Hq.
  by rewrite <- Hm, Hname.
Qed.

Lemma new_search_never_degenerate_witness :
  Str " Pain" = Str " Pain" ∧
  lowerCaseQuery " Pain" ≠ "" ∧
  ∃ st', searchEffect catalog [aspirin] (Str " Pain") initialState = Normal st' ∧
    ∀ m, m ∈ exact (results st') → name m ≠ "".
Proof.
  apply (new_search_never_degenerate catalog [aspirin]
           {| newQuery := " Pain"; results := results initialState;
              symptomAlert := None |} initialState (Str " Pain")).
  reflexivity.
Defined.

(** A completed search keeps the text of the search box, and it leaves
    nothing behind that a later search reads: the later search ends as it
    would have without the earlier one. *)
Theorem later_search_supersedes C1 D1 q1 C2 D2 q2 st st1 :
  searchEffect C1 D1 q1 st = Normal st1 →
  newQuery st1 = newQuery st ∧
  searchEffect C2 D2 q2 st1 = searchEffect C2 D2 q2 st.
Proof.
  destruct q1 as [|s1|l1]; simpl; try discriminate.
  intros [= <-]. split; [done|]. by destruct q2.
Qed.

Lemma later_search_supersedes_witness :
  ∃ st1, searchEffect catalog [aspirin] (Str "pain") initialState = Normal st1 ∧
    newQuery st1 = newQuery initialState ∧
    searchEffect [dorflex] [unnamed] (Str "fever") st1
    = searchEffect [dorflex] [unnamed] (Str "fever") initialState.
Proof.
  eexists. split; [apply searchEffect_Str|].
  apply (later_search_supersedes catalog [aspirin] (Str "pain")
           [dorflex] [unnamed] (Str "fever") initialState).
  reflexivity.
Defined.

(** * More on the similar bucket *)

Lemma filter_disjoint_submseteq {A} (P Q : A → Prop)
    `{!∀ x, Decision (P x), !∀ x, Decision (Q x)} (l k : list A) :
  (∀ x, x ∈ l → P x → Q x → False) → l ⊆+ k →
  filter P l ++ filter Q l ⊆+ k.
Proof.
  intros Hdisj Hlk. transitivity l; [clear Hlk|done].
  induction l as [|x l IH]; [done|].
  assert (IH' : filter P l ++ filter Q l ⊆+ l).
  { apply IH. intros y Hy. by apply Hdisj, list_elem_of_further. }
  rewrite !filter_cons. destruct (decide (P x)) as [HP|HP].
  - rewrite decide_False by (intros HQ; eapply Hdisj; [apply list_elem_of_here|done..]).
    simpl. by apply submseteq_skip.
  - destruct (decide (Q x)) as [HQ|HQ].
    + rewrite <- Permutation_middle. by apply submseteq_skip.
    + by apply submseteq_cons.
Qed.

Lemma similarAndPartial_submseteq C q : similarAndPartial C q ⊆+ C.
Proof.
  rewrite similarAndPartial_split. unfold similarMatch at 1.
  destruct (exactMatch C q) as [|em0 ems] eqn:Hex.
  - apply sublist_submseteq, sublist_filter.
  - unfold remainingPartial. apply filter_disjoint_submseteq; [|done].
    intros m Hm Hmate [[Hnot _] _]. apply Hnot, Exists_exists. exists m.
    split; [|done]. unfold similarMatch. rewrite Hex.
    by apply list_elem_of_filter.
Qed.

(** Whatever the catalog, the similar bucket lists no catalog entry twice:
    it is a sub-multiset of the catalog, and never longer than it. *)
Theorem similar_lists_each_entry_once C D q st :
  ∃ st', searchEffect C D (Str q) st = Normal st' ∧
    similar (results st') ⊆+ C ∧
    (length (similar (results st')) ≤ length C)%nat.
Proof.
  eexists. split; [apply searchEffect_Str|]. simpl.
  split; [apply similarAndPartial_submseteq|].
  apply submseteq_length, similarAndPartial_submseteq.
Qed.

(** Over a catalog with distinct ids the similar bucket has distinct ids,
    also when several records are exact matches. *)
Theorem similar_ids_distinct C D q st :
  NoDup (id <$> C) →
  ∃ st', searchEffect C D (Str q) st = Normal st' ∧
    NoDup (id <$> similar (results st')).
Proof.
  intros HC. eexists. split; [apply searchEffect_Str|]. simpl.
  destruct (submseteq_Permutation _ _
              (similarAndPartial_submseteq C (lowerCaseQuery q))) as [k Hk].
  rewrite Hk, fmap_app in HC.
  by apply NoDup_app in HC as [? _].
Qed.

Lemma similar_ids_distinct_witness :
  ∃ st', searchEffect [dipirona_gotas; dipirona_comprimido; dorflex] []
           (Str "dipirona") initialState = Normal st' ∧
    NoDup (id <$> similar (results st')).
Proof.
  apply (similar_ids_distinct [dipirona_gotas; dipirona_comprimido; dorflex] []
           "dipirona" initialState).
  apply (bool_decide_unpack _). vm_compute. exact I.
Defined.

(** With [e] the first exact match: its id is never in the similar bucket,
    every other catalog record of its category is in it, and when [e] is the
    only exact match no id of the similar bucket is an exact match's id. *)
Theorem similar_around_first_exact C D q st e es :
  exactMatch C (lowerCaseQuery q) = e :: es →
  ∃ st', searchEffect C D (Str q) st = Normal st' ∧
    (∀ m, m ∈ similar (results st') → id m ≠ id e) ∧
    (∀ m, m ∈ C → category m = category e → id m ≠ id e →
          m ∈ similar (results st')) ∧
    (es = [] → ∀ m em, m ∈ similar (results st') →
                       em ∈ exact (results st') → id m ≠ id em).
Proof.
  intros Hex. eexists. split; [apply searchEffect_Str|]. simpl.
  assert (Hfirst : ∀ m, m ∈ similarAndPartial C (lowerCaseQuery q) → id m ≠ id e).
  { intros m. unfold similarAndPartial, similarMatch. rewrite Hex.
    rewrite elem_of_app, !list_elem_of_filter.
    intros [[[_ Hne] _]|[[_ Hnot] _]]; [done|].
    intros Heq. apply Hnot, Exists_cons_hd. done. }
  split; [done|]. split.
  - intros m Hm Hcat Hne. unfold similarAndPartial, similarMatch. rewrite Hex.
    apply elem_of_app. left. by apply list_elem_of_filter.
  - intros -> m em Hm Hem. rewrite Hex in Hem.
    apply list_elem_of_singleton in Hem as ->. by apply Hfirst.
Qed.

Lemma similar_around_first_exact_witness :
  ∃ st', searchEffect catalog [aspirin] (Str "Paracetamol") initialState = Normal st' ∧
    (∀ m, m ∈ similar (results st') → id m ≠ id paracetamol) ∧
    (∀ m, m ∈ catalog → category m = category paracetamol →
          id m ≠ id paracetamol → m ∈ similar (results st')) ∧
    (@nil Medicamento = [] → ∀ m em, m ∈ similar (results st') →
                       em ∈ exact (results st') → id m ≠ id em).
Proof.
  apply (similar_around_first_exact catalog [aspirin] "Paracetamol" initialState
           paracetamol []).
  vm_compute. reflexivity.
Defined.

(** No name match is lost: a catalog record whose lower-cased name contains
    the normalized query is shown, under its id, in the exact or in the
    similar bucket. *)
Theorem name_match_is_shown C D q st m :
  m ∈ C →
  Js.includes (Js.toLowerCase (name m)) (lowerCaseQuery q) = true →
  ∃ st', searchEffect C D (Str q) st = Normal st' ∧
    ∃ m', (m' ∈ exact (results st') ∨ m' ∈ similar (results st'))
          ∧ id m' = id m.
Proof.
  intros Hm Hin. eexists. split; [apply searchEffect_Str|]. simpl.
  set (lq := lowerCaseQuery q) in *.
  destruct (decide (Js.toLowerCase (name m) = lq)) as [Heq|Hne].
  { exists m. split; [left|done]. by apply list_elem_of_filter. }
  destruct (decide (Exists (λ sm, id sm = id m) (similarMatch C lq))) as [Hs|Hs].
  { apply Exists_exists in Hs as (sm & Hsm & Hid). exists sm.
    split; [right|done]. unfold similarAndPartial. apply elem_of_app. by left. }
  destruct (decide (Exists (λ em, id em = id m) (exactMatch C lq))) as [He|He].
  { apply Exists_exists in He as (em & Hem & Hid). exists em.
    split; [by left|done]. }
  exists m. split; [right|done]. unfold similarAndPartial.
  apply elem_of_app. right. apply list_elem_of_filter. split; [done|].
  apply list_elem_of_filter. split; [|done]. split; [|done].
  by apply Is_true_true.
Qed.

Lemma name_match_is_shown_witness :
  ∃ st', searchEffect catalog [aspirin] (Str "PROF") initialState = Normal st' ∧
    ∃ m', (m' ∈ exact (results st') ∨ m' ∈ similar (results st'))
          ∧ id m' = id ibuprofen.
Proof.
  apply (name_match_is_shown catalog [aspirin] "PROF" initialState ibuprofen).
  - apply list_elem_of_further, list_elem_of_here.
  - reflexivity.
Defined.

(** * More on the symptom bucket *)

(** Every record of the symptom bucket has a keyword that contains the
    normalized query up to case: comparing the keyword as stored can only
    lose matches, never add one. *)
Theorem forSymptom_matches_up_to_case C D q st :
  ∃ st', searchEffect C D (Str q) st = Normal st' ∧
    ∀ m, m ∈ forSymptom (results st') →
         m ∈ C ∧ ∃ keyword, keyword ∈ keywords (indications m)
                            ∧ contains_ci keyword (lowerCaseQuery q).
Proof.
  eexists. split; [apply searchEffect_Str|]. simpl.
  intros m [Hm (keyword & Hk & Hin)]%forSymptomMatch_iff.
  split; [done|]. exists keyword. split; [done|].
  unfold contains_ci. apply Is_true_true, includes_toLowerCase.
  by apply Is_true_true.
Qed.

(** Over a catalog whose keywords are all stored in lower case, the symptom
    bucket holds exactly the records with a keyword containing the
    normalized query up to case. *)
Theorem forSymptom_on_lowercase_catalog C D q st :
  Forall (λ m, Forall (λ keyword, Js.toLowerCase keyword = keyword)
                 (keywords (indications m))) C →
  ∃ st', searchEffect C D (Str q) st = Normal st' ∧
    ∀ m, m ∈ forSymptom (results st') ↔
         m ∈ C ∧ ∃ keyword, keyword ∈ keywords (indications m)
                            ∧ contains_ci keyword (lowerCaseQuery q).
Proof.
  intros Hlow. eexists. split; [apply searchEffect_Str|]. simpl.
  intros m. apply forSymptomMatch_lowercase_catalog.
  intros m' keyword Hm' Hk. rewrite Forall_forall in Hlow.
  specialize (Hlow m' Hm'). rewrite Forall_forall in Hlow. by apply Hlow.
Qed.

Lemma forSymptom_on_lowercase_catalog_witness :
  ∃ st', searchEffect catalog [aspirin] (Str "PAIN ") initialState = Normal st' ∧
    ∀ m, m ∈ forSymptom (results st') ↔
         m ∈ catalog ∧ ∃ keyword, keyword ∈ keywords (indications m)
                            ∧ contains_ci keyword (lowerCaseQuery "PAIN ").
Proof.
  apply (forSymptom_on_lowercase_catalog catalog [aspirin] "PAIN " initialState).
  apply (bool_decide_unpack _). vm_compute. exact I.
Defined.

(** * Empty inputs, concatenated inputs, longer queries *)

(** An empty catalog gives three empty buckets and an empty panel gives no
    alert, for every string query. *)
Theorem empty_catalog_empty_panel C D q st :
  (∃ st', searchEffect [] D (Str q) st = Normal st' ∧
     exact (results st') = [] ∧ similar (results st') = [] ∧
     forSymptom (results st') = []) ∧
  (∃ st', searchEffect C [] (Str q) st = Normal st' ∧ symptomAlert st' = None).
Proof.
  split; eexists; (split; [apply searchEffect_Str|]); simpl; done.
Qed.

(** The exact bucket, the symptom bucket and the list of conflicting drugs
    are decided record by record: over two catalogs, or two panels, put end
    to end they are the two separate results put end to end. *)
Theorem per_record_buckets_distribute C1 C2 D1 D2 q st :
  ∃ st1 st2 st12,
    searchEffect C1 D1 (Str q) st = Normal st1 ∧
    searchEffect C2 D2 (Str q) st = Normal st2 ∧
    searchEffect (C1 ++ C2) (D1 ++ D2) (Str q) st = Normal st12 ∧
    exact (results st12) = exact (results st1) ++ exact (results st2) ∧
    forSymptom (results st12)
    = forSymptom (results st1) ++ forSymptom (results st2) ∧
    conflicting (D1 ++ D2) (lowerCaseQuery q)
    = conflicting D1 (lowerCaseQuery q) ++ conflicting D2 (lowerCaseQuery q).
Proof.
  do 3 eexists. rewrite !searchEffect_Str. do 3 (split; [done|]). simpl.
  unfold exactMatch, forSymptomMatch, conflicting. by rewrite !filter_app.
Qed.

Lemma filter_sublist_impl {A} (P Q : A → Prop)
    `{!∀ x, Decision (P x), !∀ x, Decision (Q x)} (l : list A) :
  (∀ x, P x → Q x) → filter P l `sublist_of` filter Q l.
Proof.
  intros HPQ. rewrite <- (list_filter_filter_l P Q) by done.
  apply sublist_filter.
Qed.

Lemma Exists_includes_narrow (f : string → string) (q1 q2 : string) l :
  Js.includes q2 q1 = true →
  Exists (λ s, Js.includes (f s) q2) l → Exists (λ s, Js.includes (f s) q1) l.
Proof.
  intros H12 HE. eapply Exists_impl; [exact HE|].
  intros s Hs%Is_true_true. apply Is_true_true. by eapply includes_trans.
Qed.

Lemma sublist_joined_names (l1 l2 : list Drug.t) :
  l2 `sublist_of` l1 →
  l2 ≠ [] ∧ Drug.name <$> l2 ≠ [""] →
  l1 ≠ [] ∧ Drug.name <$> l1 ≠ [""].
Proof.
  intros Hsub [Hnil Hone]. split.
  - intros ->. by apply sublist_nil_r in Hsub.
  - intros Hl1. destruct l1 as [|d [|d' l1]]; try done.
    apply sublist_cons_r in Hsub as [Hsub|(l' & -> & Hsub)];
      apply sublist_nil_r in Hsub; by subst.
Qed.

(** A query that contains another one, after normalization, matches no more
    than the shorter one: its symptom bucket and its conflicting drugs are
    sublists of the shorter query's, and if it raises the alert so does the
    shorter query. *)
Theorem longer_query_narrows C D q1 q2 st :
  Js.includes (lowerCaseQuery q2) (lowerCaseQuery q1) = true →
  ∃ st1 st2,
    searchEffect C D (Str q1) st = Normal st1 ∧
    searchEffect C D (Str q2) st = Normal st2 ∧
    forSymptom (results st2) `sublist_of` forSymptom (results st1) ∧
    conflicting D (lowerCaseQuery q2) `sublist_of` conflicting D (lowerCaseQuery q1) ∧
    (is_Some (symptomAlert st2) → is_Some (symptomAlert st1)).
Proof.
  intros H12. do 2 eexists. rewrite !searchEffect_Str.
  do 2 (split; [done|]). simpl.
  assert (Hconf : conflicting D (lowerCaseQuery q2)
                    `sublist_of` conflicting D (lowerCaseQuery q1)).
  { apply filter_sublist_impl. intros drug.
    by apply (Exists_includes_narrow Js.toLowerCase). }
  split; [|split; [done|]].
  - apply filter_sublist_impl. intros m.
    by apply (Exists_includes_narrow (λ s, s)).
  - rewrite !alertFor_is_Some. unfold conflictingDrugs. rewrite !truthy_join.
    intros [H1 H2].
    destruct (sublist_joined_names _ _ Hconf) as [H3 H4].
    + split; [|done]. intros Hnil. by rewrite Hnil in H1.
    + split; [|done]. intros Hnil%fmap_nil_inv. done.
Qed.

Lemma longer_query_narrows_witness :
  ∃ st1 st2,
    searchEffect catalog [aspirin] (Str "pa") initialState = Normal st1 ∧
    searchEffect catalog [aspirin] (Str "Pain") initialState = Normal st2 ∧
    forSymptom (results st2) `sublist_of` forSymptom (results st1) ∧
    conflicting [aspirin] (lowerCaseQuery "Pain")
      `sublist_of` conflicting [aspirin] (lowerCaseQuery "pa") ∧
    (is_Some (symptomAlert st2) → is_Some (symptomAlert st1)).
Proof.
  apply (longer_query_narrows catalog [aspirin] "pa" "Pain" initialState).
  reflexivity.
Defined.

(** * What the screen shows after a search *)

Lemma app_string_inj_l p a b : p +:+ a = p +:+ b → a = b.
Proof.
  induction p as [|c p IH]; [done|].
  change (String c (p +:+ a) = String c (p +:+ b) → a = b).
  intros [= Hab]. by apply IH.
Qed.

Lemma numberToString_inj n1 n2 :
  isSafeInteger n1 → numberToString n1 = numberToString n2 → n1 = n2.
Proof.
  unfold numberToString. intros H1.
  destruct (isSafeInteger n1); [|done].
  destruct (isSafeInteger n2); [|done].
  intros [= Heq]. by apply (inj pretty).
Qed.

Lemma numberToString_safe n :
  isSafeInteger n → numberToString n = Some (pretty n).
Proof. unfold numberToString. by destruct (isSafeInteger n). Qed.

Lemma numberToString_examples :
  numberToString 42 = Some "42" ∧ numberToString (-7) = Some "-7" ∧
  numberToString 0 = Some "0" ∧
  numberToString 9007199254740991 = Some "9007199254740991" ∧
  numberToString (10 ^ 21) = None.
Proof. vm_compute. done. Qed.

Lemma resultCard_keys data :
  NoDup (id <$> data) →
  Forall (λ m, isSafeInteger (id m)) data →
  Forall (λ card, is_Some (key card) ∧ is_Some (onPress card))
    (resultCard <$> data) ∧
  NoDup (key <$> (resultCard <$> data)) ∧
  NoDup (onPress <$> (resultCard <$> data)).
Proof.
  intros Hids Hsafe.
  assert (Hinj : ∀ n1 n2, n1 ∈ id <$> data → n2 ∈ id <$> data →
                          numberToString n1 = numberToString n2 → n1 = n2).
  { intros n1 n2 (m & -> & Hm)%list_elem_of_fmap _. apply numberToString_inj.
    rewrite Forall_forall in Hsafe. by apply Hsafe. }
  split; [|split].
  - apply Forall_fmap. eapply Forall_impl; [exact Hsafe|].
    intros m Hm. simpl. rewrite (numberToString_safe _ Hm). simpl.
    split; by eexists.
  - assert (Hk : key <$> (resultCard <$> data) = numberToString <$> (id <$> data)).
    { by rewrite <- !list_fmap_compose. }
    rewrite Hk. by apply NoDup_fmap_2_strong.
  - assert (Hr : onPress <$> (resultCard <$> data)
                 = (λ n, (λ s, "home/drug-details/" +:+ s) <$> numberToString n)
                   <$> (id <$> data)).
    { by rewrite <- !list_fmap_compose. }
    rewrite Hr. apply NoDup_fmap_2_strong; [|done].
    intros n1 n2 Hn1 Hn2 Heq. apply (Hinj n1 n2 Hn1 Hn2).
    destruct (numberToString n1) as [s1|], (numberToString n2) as [s2|];
      simpl in Heq; try done.
    injection Heq as Heq%app_string_inj_l. by rewrite Heq.
Qed.

(** Over a catalog whose ids are pairwise distinct safe integers, after a
    completed search every section of the screen either shows the no-result
    text, its bucket being empty, or a non-empty list whose cards all have a
    key and a detail route, the keys pairwise distinct and the routes
    pairwise distinct. *)
Theorem sections_have_distinct_keys C D q st :
  NoDup (id <$> C) →
  Forall (λ m, isSafeInteger (id m)) C →
  ∃ st', searchEffect C D (Str q) st = Normal st' ∧
    Forall (λ section,
              match body section with
              | FlatList cards =>
                  cards ≠ [] ∧
                  Forall (λ card, is_Some (key card) ∧ is_Some (onPress card))
                    cards ∧
                  NoDup (key <$> cards) ∧ NoDup (onPress <$> cards)
              | NoResultText text => text = "Nenhum medicamento encontrado."
              end) (sections (render (Str q) st')).
Proof.
  intros HC Hsafe. eexists. split; [apply searchEffect_Str|]. simpl.
  assert (Hsec : ∀ title data,
            NoDup (id <$> data) → Forall (λ m, isSafeInteger (id m)) data →
            match body (renderSection title data) with
            | FlatList cards =>
                cards ≠ [] ∧
                Forall (λ card, is_Some (key card) ∧ is_Some (onPress card))
                  cards ∧
                NoDup (key <$> cards) ∧ NoDup (onPress <$> cards)
            | NoResultText text => text = "Nenhum medicamento encontrado."
            end).
  { intros title data Hids Hs. unfold renderSection. simpl.
    destruct data as [|m data]; [done|].
    rewrite bool_decide_eq_true_2 by (simpl; lia).
    split; [done|]. by apply resultCard_keys. }
  assert (Hsub : ∀ bucket, (∀ m, m ∈ bucket → m ∈ C) →
                           Forall (λ m, isSafeInteger (id m)) bucket).
  { intros bucket Hin. apply Forall_forall. intros m Hm.
    rewrite Forall_forall in Hsafe. by apply Hsafe, Hin. }
  repeat apply Forall_cons_2; [..|apply Forall_nil_2]; apply Hsec.
  - eapply sublist_NoDup; [exact HC|]. apply fmap_sublist, sublist_filter.
  - apply Hsub. intros m Hm. eapply elem_of_sublist; [exact Hm|apply sublist_filter].
  - by apply similarAndPartial_NoDup.
  - apply Hsub. intros m Hm.
    eapply elem_of_submseteq; [exact Hm|apply similarAndPartial_submseteq].
  - eapply sublist_NoDup; [exact HC|]. apply fmap_sublist, sublist_filter.
  - apply Hsub. intros m Hm. eapply elem_of_sublist; [exact Hm|apply sublist_filter].
Qed.

Lemma sections_have_distinct_keys_witness :
  ∃ st', searchEffect catalog [aspirin] (Str "pain") initialState = Normal st' ∧
    Forall (λ section,
              match body section with
              | FlatList cards =>
                  cards ≠ [] ∧
                  Forall (λ card, is_Some (key card) ∧ is_Some (onPress card))
                    cards ∧
                  NoDup (key <$> cards) ∧ NoDup (onPress <$> cards)
              | NoResultText text => text = "Nenhum medicamento encontrado."
              end) (sections (render (Str "pain") st')).
Proof.
  apply (sections_have_distinct_keys catalog [aspirin] "pain" initialState).
  - apply (bool_decide_unpack _). vm_compute. exact I.
  - apply (bool_decide_unpack _). vm_compute. exact I.
Defined.

(** After a completed search the two alert slots of the screen show the same
    thing: nothing when no alert was produced, an alert box with the message
    when one was; the message is never empty, so the guard never renders a
    bare string. *)
Theorem alert_slots_after_search C D query st st' :
  searchEffect C D query st = Normal st' →
  alertAboveSearch (render query st') = alertBelowSearch (render query st') ∧
  match symptomAlert st' with
  | None => alertAboveSearch (render query st') = Null
  | Some msg => alertAboveSearch (render query st') = AlertBox msg
  end.
Proof.
  destruct query as [|q|l]; simpl; try discriminate.
  intros [= <-]. split; [done|]. simpl. unfold alertFor.
  by destruct (Js.truthy (conflictingDrugs D _)).
Qed.

Lemma alert_slots_after_search_witness :
  ∃ st', searchEffect catalog [aspirin] (Str "Nausea") initialState = Normal st' ∧
    alertAboveSearch (render (Str "Nausea") st')
    = alertBelowSearch (render (Str "Nausea") st') ∧
    match symptomAlert st' with
    | None => alertAboveSearch (render (Str "Nausea") st') = Null
    | Some msg => alertAboveSearch (render (Str "Nausea") st') = AlertBox msg
    end.
Proof.
  eexists. split; [apply searchEffect_Str|].
  apply (alert_slots_after_search catalog [aspirin] (Str "Nausea") initialState).
  reflexivity.
Defined.
